(** * SeedAndPath: the seed-phrase step of the account-import wizard

    A shallow embedding of
    [packages/extension-ui/src/Popup/ImportSeed/SeedAndPath.tsx].

    The React component is modelled as a transition system.  Its six
    [useState] cells form the record [State]; the [type] prop, the promises
    returned by [validateSeed] that have not settled yet, and the calls made
    to the outside (the parent's callbacks and the validation service) form
    the record [Sys].  One [Event] is one thing the outside world does to the
    component: an input widget's [onChange], a click, the parent passing a
    new [type], or a pending promise settling.  [step] runs the handler of
    the event and then, as React does after the re-render, the validation
    effect when one of its dependencies changed. *)

From stdpp Require Import base option list strings gmap fin_maps.

Open Scope string_scope.
Open Scope list_scope.

(** ** JavaScript values used by the component *)

Module Js.

(** Truthiness of a string: only the empty string is falsy. *)
Definition truthy (value : string) : bool := negb (String.eqb value "").

(** Truthiness of a [string | null]: [null] and the empty string are falsy. *)
Definition truthy_opt (value : option string) : bool :=
  match value with
  | Some s => truthy s
  | None => false
  end.

(** [value || ''] *)
Definition or_empty (value : option string) : string :=
  match value with
  | Some s => if truthy s then s else ""
  | None => ""
  end.

(** [Array.prototype.includes] on an array of strings. *)
Fixpoint includes (array : list string) (value : string) : bool :=
  match array with
  | [] => false
  | x :: rest => if String.eqb x value then true else includes rest value
  end.

(** A plain object whose own enumerable properties hold strings. *)
Abbreviation object := (gmap string string).

(** One source of [objectSpread]: every key of [src] is written to [dest]
    ([dest[key] = src[key]]).  The assignment to the key ["__proto__"] goes
    to the setter of [Object.prototype], which ignores a string: that key is
    not written. *)
Definition assign (dest src : object) : object :=
  map_fold (λ key value acc,
              if decide (key = "__proto__") then acc else <[key := value]> acc)
           dest src.

(** [objectSpread (dest, ...sources)] of [@polkadot/util]: the sources are
    written to [dest] one after the other, so a later source overrides an
    earlier one. *)
Definition objectSpread (dest : object) (sources : list object) : object :=
  foldl assign dest sources.

#[global] Arguments assign : simpl never.
#[global] Arguments objectSpread : simpl never.

End Js.

Import Js.

(** ** The component *)

(** [KeypairType] is a union of string literals; at run time it is a string. *)
Definition KeypairType := string.

Definition keypairTypes : list string := ["ed25519"; "sr25519"; "ecdsa"].

Definition isKeypairType (value : string) : bool := includes keypairTypes value.

(** What [validateSeed] resolves with: an [address] and possibly further
    properties. *)
Record ValidatedAccount := mkValidated {
  account_address : string;
  account_fields : object
}.

(** The response as the object handed to [objectSpread]. *)
Definition account_object (validatedAccount : ValidatedAccount) : object :=
  <["address" := account_address validatedAccount]> (account_fields validatedAccount).

(** The object literal [{ genesis, type }]. *)
Definition selection (genesis : string) (type : KeypairType) : object :=
  <["type" := type]> (<["genesis" := genesis]> ∅).

(** The [useState] cells, with the names of the source. *)
Record State := mkState {
  address : string;
  seed : option string;
  path : option string;
  advanced : bool;
  error : string;
  genesis : string
}.

Definition setAddress (value : string) (st : State) : State :=
  mkState value (seed st) (path st) (advanced st) (error st) (genesis st).
Definition setSeed (value : option string) (st : State) : State :=
  mkState (address st) value (path st) (advanced st) (error st) (genesis st).
Definition setPath (value : option string) (st : State) : State :=
  mkState (address st) (seed st) value (advanced st) (error st) (genesis st).
Definition setAdvances (value : bool) (st : State) : State :=
  mkState (address st) (seed st) (path st) value (error st) (genesis st).
Definition setError (value : string) (st : State) : State :=
  mkState (address st) (seed st) (path st) (advanced st) value (genesis st).
Definition setGenesis (value : string) (st : State) : State :=
  mkState (address st) (seed st) (path st) (advanced st) (error st) value.

(** The state on mount: the arguments of the six [useState] calls. *)
Definition initial_state : State := mkState "" None None false "" "".

(** Calls that leave the component: the validation service and the three
    callbacks of [Props]. *)
Inductive Call :=
| validateSeed (suri : string) (type : KeypairType)
| onAccountChange (account : option object)
| onTypeChange (type : KeypairType)
| onNextStep.

(** The closure of the [then] and [catch] callbacks of one [validateSeed]
    call: the values [seed], [path], [genesis] and [type] had in the render
    whose effect made the call.  [req_id] numbers the calls in the order they
    were made. *)
Record Request := mkRequest {
  req_id : nat;
  req_suri : string;
  req_seed : option string;
  req_path : option string;
  req_genesis : string;
  req_type : KeypairType
}.

(** How a promise settled. *)
Inductive Settled :=
| Fulfilled (validatedAccount : ValidatedAccount)
| Rejected.

(** The component together with its surroundings.  [issued] and [completed]
    are history only (no code reads them): the number of validation calls
    made so far, and the round-trips that have completed, oldest first. *)
Record Sys := mkSys {
  state : State;
  type : KeypairType;
  pending : list Request;
  calls : list Call;
  issued : nat;
  completed : list (Request * Settled)
}.

Definition update (f : State → State) (sys : Sys) : Sys :=
  mkSys (f (state sys)) (type sys) (pending sys) (calls sys) (issued sys) (completed sys).
Definition call (c : Call) (sys : Sys) : Sys :=
  mkSys (state sys) (type sys) (pending sys) (calls sys ++ [c]) (issued sys) (completed sys).
Definition with_type (value : KeypairType) (sys : Sys) : Sys :=
  mkSys (state sys) value (pending sys) (calls sys) (issued sys) (completed sys).
Definition await (r : Request) (sys : Sys) : Sys :=
  mkSys (state sys) (type sys) (pending sys ++ [r]) (calls sys) (S (issued sys)) (completed sys).
Definition settle (i : nat) (r : Request) (outcome : Settled) (sys : Sys) : Sys :=
  mkSys (state sys) (type sys) (delete i (pending sys)) (calls sys) (issued sys)
        (completed sys ++ [(r, outcome)]).

(** What the component renders, as far as it depends on the state. *)
Record View := mkView {
  seedInput_isError : bool;
  seedInput_value : string;
  seedError_shown : bool;
  genesisSelection_value : string;
  derivationPath_shown : bool;
  derivationPath_isError : bool;
  derivationPath_value : string;
  cryptoTypeSelection_shown : bool;
  cryptoTypeSelection_value : KeypairType;
  warning : option string;
  nextStep_isDisabled : bool
}.

Definition render (sys : Sys) : View :=
  let st := state sys in
  {| seedInput_isError := truthy (error st);
     seedInput_value := or_empty (seed st);
     seedError_shown := truthy (error st) && negb (truthy_opt (seed st));
     genesisSelection_value := genesis st;
     derivationPath_shown := advanced st;
     derivationPath_isError := truthy_opt (path st) && truthy (error st);
     derivationPath_value := or_empty (path st);
     cryptoTypeSelection_shown := advanced st;
     cryptoTypeSelection_value := type sys;
     warning := if truthy (error st) && truthy_opt (seed st) then Some (error st) else None;
     nextStep_isDisabled := negb (truthy (address st)) || truthy (error st) |}.

(** The dependency list of the effect.  [t] and [onAccountChange] keep their
    identity between renders and are left out. *)
Definition deps (sys : Sys) : string * option string * option string * KeypairType :=
  (genesis (state sys), seed (state sys), path (state sys), type sys).

(** What the outside world can do to the mounted component. *)
Inductive Event :=
| SeedInput (value : string)
| GenesisInput (value : string)
| AdvancedClick
| PathInput (value : string)
| TypeInput (value : string)
| NextClick
| TypeProp (value : KeypairType)
| Resolve (i : nat) (validatedAccount : ValidatedAccount)
| Reject (i : nat).

Section Component.

(** The translation function of [useTranslation]. *)
Variable t : string → string.

(** The body of the [useEffect] callback. *)
Definition validation_effect (sys : Sys) : Sys :=
  let st := state sys in
  if negb (truthy_opt (seed st)) then
    call (onAccountChange None) sys
  else
    let suri := or_empty (seed st) +:+ or_empty (path st) in
    await (mkRequest (issued sys) suri (seed st) (path st) (genesis st) (type sys))
          (call (validateSeed suri (type sys)) sys).

(** The [then] callback. *)
Definition on_fulfilled (r : Request) (validatedAccount : ValidatedAccount) (sys : Sys) : Sys :=
  call (onAccountChange (Some (objectSpread ∅
          [account_object validatedAccount;
           selection (req_genesis r) (req_type r)])))
       (update (setAddress (account_address validatedAccount))
               (update (setError "") sys)).

(** The [catch] callback. *)
Definition on_rejected (r : Request) (sys : Sys) : Sys :=
  update (setError (if truthy_opt (req_path r)
                    then t "Invalid mnemonic seed or derivation path"
                    else t "Invalid mnemonic seed"))
         (call (onAccountChange None)
               (update (setAddress "") sys)).

Definition _onToggleAdvanced (sys : Sys) : Sys :=
  update (λ st, setAdvances (negb (advanced st)) st) sys.

Definition _onTypeChange (value : string) (sys : Sys) : Sys :=
  if isKeypairType value then call (onTypeChange value) sys
  else update (setError "") sys.

(** The handler of an event.  An event on a control that is not rendered
    (or on the disabled button), or the settling of a promise that is not
    pending, does nothing. *)
Definition handle (ev : Event) (sys : Sys) : Sys :=
  match ev with
  | SeedInput value => update (setSeed (Some value)) sys
  | GenesisInput value => update (setGenesis value) sys
  | AdvancedClick => _onToggleAdvanced sys
  | PathInput value =>
      if derivationPath_shown (render sys) then update (setPath (Some value)) sys else sys
  | TypeInput value =>
      if cryptoTypeSelection_shown (render sys) then _onTypeChange value sys else sys
  | NextClick =>
      if nextStep_isDisabled (render sys) then sys else call onNextStep sys
  | TypeProp value => with_type value sys
  | Resolve i validatedAccount =>
      match pending sys !! i with
      | Some r => on_fulfilled r validatedAccount (settle i r (Fulfilled validatedAccount) sys)
      | None => sys
      end
  | Reject i =>
      match pending sys !! i with
      | Some r => on_rejected r (settle i r Rejected sys)
      | None => sys
      end
  end.

(** One event: its handler, then the effect if a dependency changed. *)
Definition step (ev : Event) (sys : Sys) : Sys :=
  let sys' := handle ev sys in
  if decide (deps sys' = deps sys) then sys' else validation_effect sys'.

Definition run (evs : list Event) (sys : Sys) : Sys := foldl (λ s ev, step ev s) sys evs.

(** Mounting: the first render, whose effect always runs. *)
Definition mount (type : KeypairType) : Sys :=
  validation_effect (mkSys initial_state type [] [] 0 []).

Inductive reachable : Sys → Prop :=
| reachable_mount type : reachable (mount type)
| reachable_step ev sys : reachable sys → reachable (step ev sys).

End Component.

(** ** Histories and specification predicates *)

(** The address the last completed round-trip left behind: the one it
    returned if it succeeded, none if it failed or if nothing completed yet. *)
Definition recorded_address (log : list (Request * Settled)) : string :=
  match last log with
  | Some (_, Fulfilled validatedAccount) => account_address validatedAccount
  | _ => ""
  end.

(** [r] was made for the seed, path and algorithm the component holds now. *)
Definition same_inputs (sys : Sys) (r : Request) : Prop :=
  req_seed r = seed (state sys) ∧ req_path r = path (state sys) ∧ req_type r = type sys.

#[global] Instance same_inputs_dec sys r : Decision (same_inputs sys r).
Proof. unfold same_inputs. apply _. Defined.

(** The most recently completed round-trip among those made for the current
    seed, path and algorithm. *)
Definition last_completed_for_current (sys : Sys) : option (Request * Settled) :=
  last (filter (λ c, same_inputs sys c.1) (completed sys)).

Definition succeeded (c : option (Request * Settled)) : Prop :=
  ∃ r validatedAccount, c = Some (r, Fulfilled validatedAccount).

(** The invariant of the data model, as the specification words it. *)
Definition address_tracks_current_inputs (sys : Sys) : Prop :=
  address (state sys) ≠ "" ↔ succeeded (last_completed_for_current sys).

(** [r] is the validation call made last. *)
Definition latest (sys : Sys) (r : Request) : Prop := S (req_id r) = issued sys.

(** The closure of [r] holds what the component holds now. *)
Definition captures_current (sys : Sys) (r : Request) : Prop :=
  req_seed r = seed (state sys) ∧ req_path r = path (state sys) ∧
  req_genesis r = genesis (state sys) ∧ req_type r = type sys.

(** A pending request was made by the effect, for a non-empty seed. *)
Definition request_wf (sys : Sys) (r : Request) : Prop :=
  req_id r < issued sys ∧
  req_suri r = or_empty (req_seed r) +:+ or_empty (req_path r) ∧
  truthy_opt (req_seed r) = true.

Record invariant (sys : Sys) : Prop := mkInvariant {
  inv_wf : ∀ r, r ∈ pending sys → request_wf sys r;
  inv_latest :
    truthy_opt (seed (state sys)) = true →
    ∀ r, r ∈ pending sys → latest sys r → captures_current sys r;
  inv_address : address (state sys) = recorded_address (completed sys)
}.

(** What holds of the round-trip that completed last: its call was made
    earlier, and if it is the call made last while the seed is non-empty, it
    was made for what the component holds now. *)
Definition completed_wf (sys : Sys) : Prop :=
  ∀ r outcome,
    last (completed sys) = Some (r, outcome) →
    req_id r < issued sys ∧
    (truthy_opt (seed (state sys)) = true → latest sys r → captures_current sys r).

(** The candidate the [then] callback forwards when the selection is
    [genesis] and [type]. *)
Definition candidate (validatedAccount : ValidatedAccount) (genesis : string)
    (type : KeypairType) : object :=
  objectSpread ∅ [account_object validatedAccount; selection genesis type].

(** A successful response handled as the specification words it: the
    forwarded candidate carries the selection the component holds when the
    response arrives. *)
Definition success_forwards_current (t : string → string) (sys : Sys) (i : nat)
    (validatedAccount : ValidatedAccount) : Prop :=
  let sys' := step t (Resolve i validatedAccount) sys in
  address (state sys') = account_address validatedAccount ∧
  error (state sys') = "" ∧
  calls sys' = calls sys ++
    [onAccountChange (Some (candidate validatedAccount (genesis (state sys)) (type sys)))].

(** The [genesis] and [type] of the forwarded candidate are the current
    selection, as the specification words it. *)
Definition candidate_fields_current (t : string → string) (sys : Sys) (i : nat)
    (validatedAccount : ValidatedAccount) : Prop :=
  let sys' := step t (Resolve i validatedAccount) sys in
  ∃ account,
    last (calls sys') = Some (onAccountChange (Some account)) ∧
    account !! "genesis" = Some (genesis (state sys')) ∧
    account !! "type" = Some (type sys').

(** A translation table without entries: every message is shown as it is. *)
Definition untranslated (message : string) : string := message.

(** A response of the validation service. *)
Definition example_account : ValidatedAccount := mkValidated "5Abc" ∅.

(** A response that holds a [genesis] and a [type] of its own. *)
Definition overriding_account : ValidatedAccount :=
  mkValidated "5Abc" (<["type" := "ecdsa"]> (<["genesis" := "0xffff"]> ∅)).

(** ** Concrete runs *)

(** A seed was entered and accepted by the validator. *)
Definition validated_sys : Sys :=
  run untranslated [SeedInput "abc"; Resolve 0 example_account] (mount "sr25519").

(** A seed was entered; the validator has not answered yet. *)
Definition awaiting_sys : Sys := run untranslated [SeedInput "abc"] (mount "sr25519").

(** Seed "a" was refused, seed "b" was accepted, and the user typed "a"
    again: the address shown is that of "b". *)
Definition stale_address_sys : Sys :=
  run untranslated
      [SeedInput "a"; Reject 0; SeedInput "b"; Resolve 0 example_account; SeedInput "a"]
      (mount "sr25519").

(** The network was changed while the first validation call was pending. *)
Definition stale_network_sys : Sys :=
  run untranslated [SeedInput "a"; GenesisInput "0x91b1"] (mount "sr25519").

(** The parent changed the algorithm while the first validation call was
    pending. *)
Definition stale_type_sys : Sys :=
  run untranslated [SeedInput "a"; TypeProp "ed25519"] (mount "sr25519").

(** ** The rest of the component *)

Module Dropdown.

(** An entry of a [Dropdown]'s [options]. *)
Record Option := mkOption {
  text : string;
  value : string
}.

End Dropdown.

(** The options of the crypto type dropdown:
    [keypairTypes.map((name) => ({ text: name, value: name }))]. *)
Definition keypairTypeOptions : list Dropdown.Option :=
  map (λ name, Dropdown.mkOption name name) keypairTypes.

(** The message the [catch] callback of [r] shows. *)
Definition failure_message (t : string → string) (r : Request) : string :=
  if truthy_opt (req_path r)
  then t "Invalid mnemonic seed or derivation path"
  else t "Invalid mnemonic seed".

(** What holds of every call the component makes: the validator is never
    given an empty secret, a forwarded candidate carries an address, a
    network and an algorithm, and the parent is only asked to switch to one
    of the [keypairTypes]. *)
Definition call_ok (c : Call) : Prop :=
  match c with
  | validateSeed suri _ => suri ≠ ""
  | onAccountChange (Some account) =>
      is_Some (account !! "address") ∧
      is_Some (account !! "genesis") ∧
      is_Some (account !! "type")
  | onAccountChange None => True
  | onTypeChange ty => isKeypairType ty = true
  | onNextStep => True
  end.

(** A call to [onAccountChange]. *)
Definition is_onAccountChange (c : Call) : Prop := ∃ account, c = onAccountChange account.

(** A seed was entered and refused by the validator. *)
Definition rejected_sys : Sys :=
  run untranslated [SeedInput "abc"; Reject 0] (mount "sr25519").

(** The user picked "ecdsa" in the crypto type dropdown. *)
Definition typed_sys : Sys :=
  run untranslated [AdvancedClick; TypeInput "ecdsa"] (mount "sr25519").

(** The advanced section is open and holds a derivation path. *)
Definition advanced_path_sys : Sys :=
  run untranslated [AdvancedClick; PathInput "//0"; SeedInput "abc"] (mount "sr25519").

(** ** Facts about the JavaScript helpers *)

Lemma truthy_true (value : string) : truthy value = true ↔ value ≠ "".
Proof.
  unfold truthy. destruct (String.eqb_spec value "") as [->|Hne]; simpl.
  - split; [discriminate | congruence].
  - split; [done | done].
Qed.

Lemma truthy_false (value : string) : truthy value = false ↔ value = "".
Proof.
  unfold truthy. destruct (String.eqb_spec value "") as [->|Hne]; simpl.
  - split; done.
  - split; [discriminate | congruence].
Qed.

Lemma truthy_opt_false (value : option string) :
  truthy_opt value = false ↔ value = None ∨ value = Some "".
Proof.
  destruct value as [s|]; simpl.
  - rewrite truthy_false. split.
    + intros ->. by right.
    + intros [?|?]; congruence.
  - split; [by left | done].
Qed.

Lemma truthy_opt_true (value : option string) :
  truthy_opt value = true ↔ ∃ s, value = Some s ∧ s ≠ "".
Proof.
  destruct value as [s|]; simpl.
  - rewrite truthy_true. split.
    + intros Hs. by exists s.
    + intros (s' & [= ->] & Hs). done.
  - split; [discriminate | intros (? & ? & ?); discriminate].
Qed.

(** [value || ''] reads [null] as the empty string and changes nothing else. *)
Lemma or_empty_default (value : option string) : or_empty value = default "" value.
Proof.
  destruct value as [s|]; simpl; [|done].
  destruct (truthy s) eqn:Hs; [done|]. by apply truthy_false in Hs.
Qed.

Lemma includes_elem_of (array : list string) (value : string) :
  includes array value = true ↔ value ∈ array.
Proof.
  induction array as [|x rest IH]; simpl.
  - split; [discriminate | by intros ?%elem_of_nil].
  - rewrite elem_of_cons. destruct (String.eqb_spec x value) as [->|Hne].
    + split; [by left | done].
    + rewrite IH. split; [by right | intros [?|?]; congruence].
Qed.

Lemma isKeypairType_spec (value : string) :
  isKeypairType value = true ↔ value = "ed25519" ∨ value = "sr25519" ∨ value = "ecdsa".
Proof.
  unfold isKeypairType, keypairTypes. rewrite includes_elem_of.
  rewrite !elem_of_cons, elem_of_nil. tauto.
Qed.

Lemma lookup_assign (dest src : object) (key : string) :
  assign dest src !! key =
  if decide (key = "__proto__") then dest !! key
  else match src !! key with Some value => Some value | None => dest !! key end.
Proof.
  unfold assign.
  apply (map_fold_weak_ind (λ acc (m : object),
    acc !! key =
    if decide (key = "__proto__") then dest !! key
    else match m !! key with Some value => Some value | None => dest !! key end)).
  - rewrite lookup_empty. by destruct (decide _).
  - intros i x m acc Hi IH.
    destruct (decide (i = "__proto__")) as [->|Hproto].
    + destruct (decide (key = "__proto__")) as [->|Hkey]; [done|].
      by rewrite lookup_insert_ne.
    + destruct (decide (i = key)) as [->|Hne].
      * rewrite !lookup_insert_eq. by destruct (decide _).
      * by rewrite !lookup_insert_ne.
Qed.

Lemma lookup_selection_genesis (g : string) (ty : KeypairType) :
  selection g ty !! "genesis" = Some g.
Proof. unfold selection. by rewrite lookup_insert_ne, lookup_insert_eq. Qed.

Lemma lookup_selection_type (g : string) (ty : KeypairType) :
  selection g ty !! "type" = Some ty.
Proof. unfold selection. by rewrite lookup_insert_eq. Qed.

Lemma lookup_selection_other (g : string) (ty : KeypairType) (key : string) :
  key ≠ "genesis" → key ≠ "type" → selection g ty !! key = None.
Proof.
  intros Hg Ht. unfold selection.
  rewrite lookup_insert_ne by done. rewrite lookup_insert_ne by done. apply lookup_empty.
Qed.

(** The candidate built by the [then] callback, key by key: the selection
    wins over the response, the response fills in the rest. *)
Lemma lookup_candidate (validatedAccount : ValidatedAccount) (g : string) (ty : KeypairType)
    (key : string) :
  key ≠ "__proto__" →
  objectSpread ∅ [account_object validatedAccount; selection g ty] !! key =
  match selection g ty !! key with
  | Some value => Some value
  | None => account_object validatedAccount !! key
  end.
Proof.
  intros Hkey. unfold objectSpread. simpl. rewrite !lookup_assign.
  destruct (decide _) as [|_]; [done|].
  destruct (selection g ty !! key); [done|].
  destruct (account_object validatedAccount !! key); [done|]. apply lookup_empty.
Qed.

(** ** Facts about the transition system *)

Section Properties.

Variable t : string → string.

Lemma validation_effect_empty (sys : Sys) :
  truthy_opt (seed (state sys)) = false →
  validation_effect sys = call (onAccountChange None) sys.
Proof. intros H. unfold validation_effect. by rewrite H. Qed.

Lemma validation_effect_validate (sys : Sys) :
  truthy_opt (seed (state sys)) = true →
  validation_effect sys =
  let suri := or_empty (seed (state sys)) +:+ or_empty (path (state sys)) in
  await (mkRequest (issued sys) suri (seed (state sys)) (path (state sys))
                   (genesis (state sys)) (type sys))
        (call (validateSeed suri (type sys)) sys).
Proof. intros H. unfold validation_effect. by rewrite H. Qed.

(** The effect itself writes no state cell and completes nothing. *)
Lemma validation_effect_state (sys : Sys) :
  state (validation_effect sys) = state sys ∧
  type (validation_effect sys) = type sys ∧
  completed (validation_effect sys) = completed sys.
Proof. unfold validation_effect. by destruct (truthy_opt (seed (state sys))). Qed.

(** A handler makes no validation call and never adds a pending promise. *)
Lemma handle_issued (ev : Event) (sys : Sys) : issued (handle t ev sys) = issued sys.
Proof.
  destruct ev; simpl; try done.
  - by destruct (advanced (state sys)).
  - destruct (advanced (state sys)); [|done].
    unfold _onTypeChange. by destruct (isKeypairType value).
  - by destruct (negb _ || _).
  - by destruct (pending sys !! i).
  - by destruct (pending sys !! i).
Qed.

Lemma handle_pending (ev : Event) (sys : Sys) (r : Request) :
  r ∈ pending (handle t ev sys) → r ∈ pending sys.
Proof.
  destruct ev; simpl; try done.
  - by destruct (advanced (state sys)).
  - destruct (advanced (state sys)); [|done].
    unfold _onTypeChange. by destruct (isKeypairType value).
  - by destruct (negb _ || _).
  - destruct (pending sys !! i); [|done]. simpl. apply list_elem_of_delete_inv.
  - destruct (pending sys !! i); [|done]. simpl. apply list_elem_of_delete_inv.
Qed.

Lemma recorded_address_snoc (log : list (Request * Settled)) (r : Request) (o : Settled) :
  recorded_address (log ++ [(r, o)]) =
  match o with Fulfilled validatedAccount => account_address validatedAccount | Rejected => "" end.
Proof. unfold recorded_address. by rewrite last_snoc. Qed.

(** Only a settling promise writes [address], and it writes what the
    round-trip it completes says. *)
Lemma handle_address (ev : Event) (sys : Sys) :
  address (state sys) = recorded_address (completed sys) →
  address (state (handle t ev sys)) = recorded_address (completed (handle t ev sys)).
Proof.
  intros H. destruct ev; simpl; try done.
  - by destruct (advanced (state sys)).
  - destruct (advanced (state sys)); [|done].
    unfold _onTypeChange. by destruct (isKeypairType value).
  - by destruct (negb _ || _).
  - destruct (pending sys !! i); [|done]. simpl. by rewrite recorded_address_snoc.
  - destruct (pending sys !! i); [|done]. simpl. by rewrite recorded_address_snoc.
Qed.

Lemma step_unfold (ev : Event) (sys : Sys) :
  (deps (handle t ev sys) = deps sys ∧ step t ev sys = handle t ev sys) ∨
  (deps (handle t ev sys) ≠ deps sys ∧ step t ev sys = validation_effect (handle t ev sys)).
Proof. unfold step. destruct (decide _); [by left | by right]. Qed.

Lemma invariant_mount (ty : KeypairType) : invariant (mount ty).
Proof. split; simpl; [by intros r ?%elem_of_nil | discriminate | done]. Qed.

Lemma invariant_step (ev : Event) (sys : Sys) : invariant sys → invariant (step t ev sys).
Proof.
  intros [Hwf Hlatest Haddr].
  pose proof (handle_issued ev sys) as Hissued.
  pose proof (handle_pending ev sys) as Hpending.
  pose proof (handle_address ev sys Haddr) as Haddr'.
  destruct (step_unfold ev sys) as [[Hdeps ->]|[Hdeps ->]].
  - (* no dependency changed: the effect does not run *)
    injection Hdeps as Hg Hs Hp Ht.
    split; [| |done].
    + intros r Hr. destruct (Hwf r (Hpending r Hr)) as (? & ? & ?).
      split; [by rewrite Hissued | done].
    + intros Hseed r Hr Hlast. rewrite Hs in Hseed.
      unfold latest in Hlast. rewrite Hissued in Hlast.
      destruct (Hlatest Hseed r (Hpending r Hr) Hlast) as (? & ? & ? & ?).
      unfold captures_current. rewrite Hg, Hs, Hp, Ht. done.
  - (* a dependency changed: the effect runs on the new render *)
    set (sys' := handle t ev sys) in *.
    destruct (truthy_opt (seed (state sys'))) eqn:Hseed.
    + rewrite (validation_effect_validate sys' Hseed). split; simpl.
      * intros r [Hr| ->%list_elem_of_singleton]%elem_of_app.
        -- destruct (Hwf r (Hpending r Hr)) as (? & ? & ?).
           split; [simpl; rewrite Hissued; lia | done].
        -- split; [simpl; lia | done].
      * intros _ r [Hr| ->%list_elem_of_singleton]%elem_of_app Hlast.
        -- destruct (Hwf r (Hpending r Hr)) as (Hid & _).
           unfold latest in Hlast. simpl in Hlast. rewrite Hissued in Hlast. lia.
        -- done.
      * done.
    + rewrite (validation_effect_empty sys' Hseed). split; simpl.
      * intros r Hr. destruct (Hwf r (Hpending r Hr)) as (? & ? & ?).
        split; [simpl; by rewrite Hissued | done].
      * rewrite Hseed. discriminate.
      * done.
Qed.

Lemma reachable_invariant (sys : Sys) : reachable t sys → invariant sys.
Proof.
  induction 1 as [ty|ev sys _ IH]; [apply invariant_mount | by apply invariant_step].
Qed.

Lemma reachable_run (evs : list Event) (sys : Sys) :
  reachable t sys → reachable t (run t evs sys).
Proof.
  revert sys. induction evs as [|ev evs IH]; intros sys H; simpl; [done|].
  apply IH. by constructor.
Qed.

End Properties.

(** ** The settled promises *)

Section Settling.

Variable t : string → string.

Lemma step_resolve (sys : Sys) (i : nat) (r : Request) (validatedAccount : ValidatedAccount) :
  pending sys !! i = Some r →
  step t (Resolve i validatedAccount) sys =
  on_fulfilled r validatedAccount (settle i r (Fulfilled validatedAccount) sys).
Proof.
  intros H. unfold step, handle. rewrite H.
  destruct (decide _) as [|Hne]; [done|]. by destruct Hne.
Qed.

Lemma step_reject (sys : Sys) (i : nat) (r : Request) :
  pending sys !! i = Some r →
  step t (Reject i) sys = on_rejected t r (settle i r Rejected sys).
Proof.
  intros H. unfold step, handle. rewrite H.
  destruct (decide _) as [|Hne]; [done|]. by destruct Hne.
Qed.

Lemma truthy_opt_default (value : option string) :
  truthy_opt value = truthy (default "" value).
Proof. by destruct value. Qed.

(** What a pending request of a reachable state carries. *)
Lemma pending_request (sys : Sys) (i : nat) (r : Request) :
  reachable t sys → pending sys !! i = Some r →
  request_wf sys r ∧
  (truthy_opt (seed (state sys)) = true → latest sys r → captures_current sys r).
Proof.
  intros [Hwf Hlatest _]%reachable_invariant Hi.
  assert (r ∈ pending sys) as Hr by (apply list_elem_of_lookup; eauto).
  split; [by apply Hwf | intros; by apply Hlatest].
Qed.

(** A handler completes at most one round-trip, that of a pending call. *)
Lemma handle_completed (ev : Event) (sys : Sys) :
  completed (handle t ev sys) = completed sys ∨
  ∃ r outcome, r ∈ pending sys ∧ completed (handle t ev sys) = completed sys ++ [(r, outcome)].
Proof.
  destruct ev as [v|v| |v|v| |v|i validatedAccount|i]; simpl; try by left.
  - left. by destruct (advanced (state sys)).
  - left. destruct (advanced (state sys)); [|done].
    unfold _onTypeChange. by destruct (isKeypairType v).
  - left. by destruct (negb _ || _).
  - destruct (pending sys !! i) as [r|] eqn:Hi; [|by left].
    right. exists r, (Fulfilled validatedAccount).
    split; [apply list_elem_of_lookup; eauto | done].
  - destruct (pending sys !! i) as [r|] eqn:Hi; [|by left].
    right. exists r, Rejected.
    split; [apply list_elem_of_lookup; eauto | done].
Qed.

Lemma captures_current_deps (sys sys' : Sys) (r : Request) :
  deps sys' = deps sys → captures_current sys r → captures_current sys' r.
Proof.
  intros Hdeps (? & ? & ? & ?). injection Hdeps as Hg Hs Hp Ht.
  unfold captures_current. by rewrite Hg, Hs, Hp, Ht.
Qed.

(** What the handler leaves behind for the round-trip completed last. *)
Lemma handle_completed_wf (ev : Event) (sys : Sys) (r : Request) (outcome : Settled) :
  invariant sys →
  completed_wf sys →
  last (completed (handle t ev sys)) = Some (r, outcome) →
  req_id r < issued sys ∧
  (truthy_opt (seed (state sys)) = true → latest sys r → captures_current sys r).
Proof.
  intros [Hwf Hlatest _] Hcompleted Hlast.
  destruct (handle_completed ev sys) as [Heq|(r' & o' & Hr' & Heq)];
    rewrite Heq in Hlast.
  - by apply (Hcompleted r outcome).
  - rewrite last_snoc in Hlast. injection Hlast as -> ->.
    split; [by apply Hwf | intros; by apply Hlatest].
Qed.

Lemma completed_wf_step (ev : Event) (sys : Sys) :
  invariant sys → completed_wf sys → completed_wf (step t ev sys).
Proof.
  intros Hinv Hcompleted r outcome Hlast.
  pose proof (handle_issued t ev sys) as Hissued.
  destruct (step_unfold t ev sys) as [[Hdeps Hstep]|[Hdeps Hstep]];
    rewrite Hstep in Hlast |- *.
  - destruct (handle_completed_wf ev sys r outcome Hinv Hcompleted Hlast) as [Hid Hcur].
    split; [by rewrite Hissued|].
    intros Hseed Hlatest. apply (captures_current_deps sys); [done|].
    apply Hcur.
    + injection Hdeps as _ Hs _ _. by rewrite <- Hs.
    + unfold latest in *. by rewrite <- Hissued.
  - destruct (validation_effect_state (handle t ev sys)) as (Hstate & _ & Hcompl).
    rewrite Hcompl in Hlast.
    destruct (handle_completed_wf ev sys r outcome Hinv Hcompleted Hlast) as [Hid _].
    destruct (truthy_opt (seed (state (handle t ev sys)))) eqn:Hseed.
    + rewrite (validation_effect_validate _ Hseed). unfold latest. simpl.
      rewrite Hissued. split; [lia|]. intros _ Hlatest. lia.
    + rewrite (validation_effect_empty _ Hseed). simpl.
      rewrite Hissued, Hseed. split; [done | discriminate].
Qed.

Lemma reachable_completed_wf (sys : Sys) : reachable t sys → completed_wf sys.
Proof.
  induction 1 as [ty|ev sys Hreach IH].
  - intros r outcome Hlast. discriminate.
  - apply completed_wf_step; [by apply (reachable_invariant t) | done].
Qed.

End Settling.

(** ** The properties of the specification *)

Section Claims.

Variable t : string → string.

(** C2 (as amended).  In every reachable state whose seed is non-empty:
    when the most recently completed validation round-trip is the one whose
    call was made last, it was made for the current seed, derivation path
    and algorithm, and [address] is non-empty if and only if it succeeded
    and returned a non-empty address.  In the states in between (a newer
    call is pending, or the answer to an older call arrived last) [address]
    is what the most recently completed round-trip left behind: the address
    it returned if it succeeded, the empty string if it failed or if no
    round-trip has completed. *)
Theorem C2_address_follows_last_completed (sys : Sys) :
  reachable t sys →
  truthy_opt (seed (state sys)) = true →
  (∀ r outcome,
     last (completed sys) = Some (r, outcome) →
     latest sys r →
     same_inputs sys r ∧
     (address (state sys) ≠ "" ↔
      ∃ validatedAccount,
        outcome = Fulfilled validatedAccount ∧ account_address validatedAccount ≠ "")) ∧
  address (state sys) = recorded_address (completed sys) ∧
  (address (state sys) ≠ "" ↔
   ∃ r validatedAccount,
     last (completed sys) = Some (r, Fulfilled validatedAccount) ∧
     account_address validatedAccount ≠ "").
Proof.
  intros Hreach Hseed.
  pose proof (reachable_completed_wf t sys Hreach) as Hcompleted.
  destruct (reachable_invariant t sys Hreach) as [_ _ Haddr].
  split; [|split; [done|]].
  - intros r outcome Hlast Hlatest.
    destruct (Hcompleted r outcome Hlast) as [_ Hcur].
    destruct (Hcur Hseed Hlatest) as (Hs & Hp & _ & Hty).
    split; [done|].
    rewrite Haddr. unfold recorded_address. rewrite Hlast.
    destruct outcome as [validatedAccount|].
    + split; [intros H; by exists validatedAccount | by intros (? & [= <-] & ?)].
    + split; [done | by intros (? & [=] & _)].
  - rewrite Haddr. unfold recorded_address.
    destruct (last (completed sys)) as [[r [validatedAccount|]]|].
    + split; [intros H; by exists r, validatedAccount | by intros (? & ? & [= _ <-] & ?)].
    + split; [done | by intros (? & ? & [=] & _)].
    + split; [done | by intros (? & ? & [=] & _)].
Qed.

(** C3 (as amended).  When the promise of a pending validation call
    resolves, the component sets [address] to the returned address, sets
    [error] to the empty string and calls [onAccountChange] with the
    response merged with the [genesis] and [type] that were selected when
    that call was made.  When the seed is non-empty and the call is the one
    made last, these are the current selections. *)
Theorem C3_successful_validation (sys : Sys) (i : nat) (r : Request)
    (validatedAccount : ValidatedAccount) :
  reachable t sys →
  pending sys !! i = Some r →
  let sys' := step t (Resolve i validatedAccount) sys in
  address (state sys') = account_address validatedAccount ∧
  error (state sys') = "" ∧
  calls sys' = calls sys ++
    [onAccountChange (Some (candidate validatedAccount (req_genesis r) (req_type r)))] ∧
  (truthy_opt (seed (state sys)) = true → latest sys r →
   req_genesis r = genesis (state sys) ∧ req_type r = type sys).
Proof.
  intros Hreach Hi sys'. subst sys'. rewrite (step_resolve t sys i r validatedAccount Hi).
  split; [done|]. split; [done|]. split; [done|].
  intros Hseed Hlast.
  destruct (pending_request t sys i r Hreach Hi) as [_ Hcur].
  by destruct (Hcur Hseed Hlast) as (_ & _ & Hg & Hty).
Qed.

(** C4.  When the promise of a pending validation call rejects, the
    component clears [address], calls [onAccountChange] with [null], and
    sets [error] to the message "Invalid mnemonic seed or derivation path"
    when the derivation path submitted with that call is non-empty and to
    "Invalid mnemonic seed" when it is empty ([null] counting as empty).
    The submitted path is the one in the string the validator was given. *)
Theorem C4_failed_validation (sys : Sys) (i : nat) (r : Request) :
  reachable t sys →
  pending sys !! i = Some r →
  let sys' := step t (Reject i) sys in
  address (state sys') = "" ∧
  calls sys' = calls sys ++ [onAccountChange None] ∧
  req_suri r = default "" (req_seed r) +:+ default "" (req_path r) ∧
  (default "" (req_path r) ≠ "" →
   error (state sys') = t "Invalid mnemonic seed or derivation path") ∧
  (default "" (req_path r) = "" →
   error (state sys') = t "Invalid mnemonic seed").
Proof.
  intros Hreach Hi sys'. subst sys'. rewrite (step_reject t sys i r Hi).
  destruct (pending_request t sys i r Hreach Hi) as [(_ & Hsuri & _) _].
  rewrite !or_empty_default in Hsuri.
  split; [done|]. split; [done|]. split; [done|].
  simpl. rewrite truthy_opt_default. split.
  - intros Hp. apply truthy_true in Hp. by rewrite Hp.
  - intros Hp. apply truthy_false in Hp. by rewrite Hp.
Qed.

(** C5.  For a non-empty seed the effect calls [validateSeed] once, with
    the seed followed by the derivation path ([null] read as the empty
    string) and with the selected algorithm, and awaits the answer. *)
Theorem C5_validator_receives_seed_and_path (sys : Sys) (s : string) :
  seed (state sys) = Some s →
  s ≠ "" →
  let suri := s +:+ default "" (path (state sys)) in
  calls (validation_effect sys) = calls sys ++ [validateSeed suri (type sys)] ∧
  pending (validation_effect sys) =
    pending sys ++ [mkRequest (issued sys) suri (Some s) (path (state sys))
                              (genesis (state sys)) (type sys)].
Proof.
  intros Hs Hne suri. subst suri.
  assert (truthy_opt (seed (state sys)) = true) as Hseed.
  { apply truthy_opt_true. eauto. }
  rewrite (validation_effect_validate sys Hseed). simpl.
  rewrite !or_empty_default, Hs. done.
Qed.

(** C6.  The "Next" button is enabled if and only if [address] is
    non-empty and [error] is empty. *)
Theorem C6_next_enabled_iff (sys : Sys) :
  nextStep_isDisabled (render sys) = false ↔
  address (state sys) ≠ "" ∧ error (state sys) = "".
Proof.
  simpl. rewrite orb_false_iff, negb_false_iff.
  by rewrite truthy_true, truthy_false.
Qed.

(** C7.  A click on the advanced toggle negates [advanced] and does
    nothing else: every other state cell and the [type] prop keep their
    value, no callback and no validation call is made, and no promise is
    added. *)
Theorem C7_toggle_advanced_frame (sys : Sys) :
  let sys' := step t AdvancedClick sys in
  advanced (state sys') = negb (advanced (state sys)) ∧
  seed (state sys') = seed (state sys) ∧
  path (state sys') = path (state sys) ∧
  genesis (state sys') = genesis (state sys) ∧
  type sys' = type sys ∧
  address (state sys') = address (state sys) ∧
  error (state sys') = error (state sys) ∧
  calls sys' = calls sys ∧
  pending sys' = pending sys ∧
  issued sys' = issued sys.
Proof.
  intros sys'. subst sys'. unfold step.
  destruct (decide _) as [_|Hne]; [by repeat split|]. by destruct Hne.
Qed.

(** C8.  The algorithm-change handler, for every string: one of
    "ed25519", "sr25519", "ecdsa" is passed to [onTypeChange] and the
    state is not touched; for any other string [onTypeChange] is not
    called and [error] becomes the empty string, the other cells keeping
    their value.  In both cases the handler returns, and the validation
    effect does not run. *)
Theorem C8_type_change_handler (value : string) (sys : Sys) :
  let sys' := _onTypeChange value sys in
  (value = "ed25519" ∨ value = "sr25519" ∨ value = "ecdsa" →
   calls sys' = calls sys ++ [onTypeChange value] ∧ state sys' = state sys) ∧
  (¬ (value = "ed25519" ∨ value = "sr25519" ∨ value = "ecdsa") →
   calls sys' = calls sys ∧
   error (state sys') = "" ∧
   address (state sys') = address (state sys) ∧
   seed (state sys') = seed (state sys) ∧
   path (state sys') = path (state sys) ∧
   advanced (state sys') = advanced (state sys) ∧
   genesis (state sys') = genesis (state sys)) ∧
  pending sys' = pending sys ∧
  type sys' = type sys ∧
  issued sys' = issued sys ∧
  (cryptoTypeSelection_shown (render sys) = true →
   step t (TypeInput value) sys = sys').
Proof.
  intros sys'. subst sys'. pose proof (isKeypairType_spec value) as Hspec.
  unfold step, handle, _onTypeChange.
  destruct (isKeypairType value).
  - split; [done|]. split; [intros Hn; destruct Hn; by apply Hspec|].
    split; [done|]. split; [done|]. split; [done|].
    intros ->. destruct (decide _) as [_|Hne]; [done|]. by destruct Hne.
  - split; [intros Hv; apply Hspec in Hv; discriminate|].
    split; [intros _; by repeat split|].
    split; [done|]. split; [done|]. split; [done|].
    intros ->. destruct (decide _) as [_|Hne]; [done|]. by destruct Hne.
Qed.

(** C9.  When the seed is empty the validation effect writes no state
    cell and leaves no promise behind, so [address] and [error] keep their
    values; in particular both survive the seed input being cleared. *)
Theorem C9_empty_seed_keeps_address_and_error (sys : Sys) :
  (truthy_opt (seed (state sys)) = false →
   state (validation_effect sys) = state sys ∧
   pending (validation_effect sys) = pending sys) ∧
  address (state (step t (SeedInput "") sys)) = address (state sys) ∧
  error (state (step t (SeedInput "") sys)) = error (state sys).
Proof.
  split.
  - intros Hseed. by rewrite (validation_effect_empty sys Hseed).
  - unfold step. destruct (decide _) as [_|_]; [done|].
    by rewrite validation_effect_empty.
Qed.

(** C10 (as amended).  In the candidate forwarded on success the fields
    [genesis] and [type] are the selections that were current when the
    validation call was made, whatever the response holds under these
    names.  When the seed is non-empty and the call is the one made last,
    they are the current selections. *)
Theorem C10_selection_overrides_response (sys : Sys) (i : nat) (r : Request)
    (validatedAccount : ValidatedAccount) :
  reachable t sys →
  pending sys !! i = Some r →
  ∃ account,
    last (calls (step t (Resolve i validatedAccount) sys)) =
      Some (onAccountChange (Some account)) ∧
    account !! "genesis" = Some (req_genesis r) ∧
    account !! "type" = Some (req_type r) ∧
    (truthy_opt (seed (state sys)) = true → latest sys r →
     account !! "genesis" = Some (genesis (state (step t (Resolve i validatedAccount) sys))) ∧
     account !! "type" = Some (type (step t (Resolve i validatedAccount) sys))).
Proof.
  intros Hreach Hi. rewrite (step_resolve t sys i r validatedAccount Hi).
  exists (candidate validatedAccount (req_genesis r) (req_type r)).
  assert (candidate validatedAccount (req_genesis r) (req_type r) !! "genesis"
          = Some (req_genesis r)) as Hg.
  { unfold candidate. rewrite lookup_candidate by done.
    by rewrite lookup_selection_genesis. }
  assert (candidate validatedAccount (req_genesis r) (req_type r) !! "type"
          = Some (req_type r)) as Hty.
  { unfold candidate. rewrite lookup_candidate by done.
    by rewrite lookup_selection_type. }
  split; [apply last_snoc|]. split; [done|]. split; [done|].
  intros Hseed Hlast.
  destruct (pending_request t sys i r Hreach Hi) as [_ Hcur].
  destruct (Hcur Hseed Hlast) as (_ & _ & Hg' & Hty').
  split; [rewrite Hg, Hg' | rewrite Hty, Hty']; reflexivity.
Qed.

End Claims.

(** ** The properties on concrete runs *)

(** C1.  The effect on an empty seed forwards [null] and makes no validation
    call, but the "Next" button is not always disabled: after a seed was
    accepted and then cleared, [null] is forwarded, no call is made, and the
    button stays enabled because [address] was not cleared. *)
Theorem C1_cleared_seed_leaves_next_enabled :
  let after := step untranslated (SeedInput "") validated_sys in
  reachable untranslated after ∧
  seed (state after) = Some "" ∧
  calls after = calls validated_sys ++ [onAccountChange None] ∧
  pending after = pending validated_sys ∧
  issued after = issued validated_sys ∧
  address (state after) = "5Abc" ∧
  error (state after) = "" ∧
  nextStep_isDisabled (render after) = false.
Proof.
  split.
  - apply reachable_step. apply reachable_run. constructor.
  - vm_compute. by repeat split.
Qed.

(** C2, as the specification words it, fails: in [stale_address_sys] the
    last completed round-trip for the current seed, path and algorithm
    failed, yet [address] is non-empty. *)
Lemma C2_address_not_tracking_current_inputs :
  reachable untranslated stale_address_sys ∧
  ¬ address_tracks_current_inputs stale_address_sys.
Proof.
  split.
  - apply reachable_run. constructor.
  - intros [H _]. destruct H as (r & validatedAccount & Heq).
    + vm_compute. discriminate.
    + vm_compute in Heq. discriminate.
Qed.

Lemma C2_address_follows_last_completed_witness :
  (∀ r outcome,
     last (completed validated_sys) = Some (r, outcome) →
     latest validated_sys r →
     same_inputs validated_sys r ∧
     (address (state validated_sys) ≠ "" ↔
      ∃ validatedAccount,
        outcome = Fulfilled validatedAccount ∧ account_address validatedAccount ≠ "")) ∧
  address (state validated_sys) = recorded_address (completed validated_sys) ∧
  (address (state validated_sys) ≠ "" ↔
   ∃ r validatedAccount,
     last (completed validated_sys) = Some (r, Fulfilled validatedAccount) ∧
     account_address validatedAccount ≠ "").
Proof.
  apply (C2_address_follows_last_completed untranslated validated_sys).
  - apply reachable_run. constructor.
  - reflexivity.
Defined.

(** C3, as the specification words it, fails: the answer to a call made
    before the network was changed is forwarded with the old network. *)
Lemma C3_stale_response_forwards_old_network :
  reachable untranslated stale_network_sys ∧
  pending stale_network_sys !! 0 = Some (mkRequest 0 "a" (Some "a") None "" "sr25519") ∧
  genesis (state stale_network_sys) = "0x91b1" ∧
  ¬ success_forwards_current untranslated stale_network_sys 0 example_account.
Proof.
  split; [apply reachable_run; constructor|].
  split; [reflexivity|]. split; [reflexivity|].
  intros (_ & _ & H).
  apply (f_equal last) in H. rewrite last_snoc in H.
  vm_compute in H. discriminate.
Qed.

Lemma C3_successful_validation_witness :
  let sys' := step untranslated (Resolve 0 example_account) awaiting_sys in
  address (state sys') = "5Abc" ∧
  error (state sys') = "" ∧
  calls sys' = calls awaiting_sys ++
    [onAccountChange (Some (candidate example_account "" "sr25519"))] ∧
  (truthy_opt (seed (state awaiting_sys)) = true →
   latest awaiting_sys (mkRequest 0 "abc" (Some "abc") None "" "sr25519") →
   "" = genesis (state awaiting_sys) ∧ "sr25519" = type awaiting_sys).
Proof.
  apply (C3_successful_validation untranslated awaiting_sys 0
           (mkRequest 0 "abc" (Some "abc") None "" "sr25519") example_account).
  - apply reachable_run. constructor.
  - reflexivity.
Defined.

Lemma C4_failed_validation_witness :
  let sys' := step untranslated (Reject 0) awaiting_sys in
  address (state sys') = "" ∧
  calls sys' = calls awaiting_sys ++ [onAccountChange None] ∧
  "abc" = "abc" +:+ "" ∧
  ("" ≠ "" → error (state sys') = "Invalid mnemonic seed or derivation path") ∧
  ("" = "" → error (state sys') = "Invalid mnemonic seed").
Proof.
  apply (C4_failed_validation untranslated awaiting_sys 0
           (mkRequest 0 "abc" (Some "abc") None "" "sr25519")).
  - apply reachable_run. constructor.
  - reflexivity.
Defined.

Lemma C5_validator_receives_seed_and_path_witness :
  let sys := mkSys (mkState "" (Some "abc") (Some "//0") true "" "") "ecdsa" [] [] 0 [] in
  calls (validation_effect sys) = [validateSeed "abc//0" "ecdsa"] ∧
  pending (validation_effect sys) =
    [mkRequest 0 "abc//0" (Some "abc") (Some "//0") "" "ecdsa"].
Proof.
  apply (C5_validator_receives_seed_and_path
           (mkSys (mkState "" (Some "abc") (Some "//0") true "" "") "ecdsa" [] [] 0 [])
           "abc").
  - reflexivity.
  - discriminate.
Defined.

Lemma C8_type_change_handler_witness :
  error (state rejected_sys) = "Invalid mnemonic seed" ∧
  calls (_onTypeChange "ethereum" rejected_sys) = calls rejected_sys ∧
  error (state (_onTypeChange "ethereum" rejected_sys)) = "" ∧
  address (state (_onTypeChange "ethereum" rejected_sys)) = address (state rejected_sys) ∧
  seed (state (_onTypeChange "ethereum" rejected_sys)) = seed (state rejected_sys) ∧
  path (state (_onTypeChange "ethereum" rejected_sys)) = path (state rejected_sys) ∧
  advanced (state (_onTypeChange "ethereum" rejected_sys)) = advanced (state rejected_sys) ∧
  genesis (state (_onTypeChange "ethereum" rejected_sys)) = genesis (state rejected_sys).
Proof.
  split; [reflexivity|].
  apply (C8_type_change_handler untranslated "ethereum" rejected_sys).
  intros [H|[H|H]]; discriminate.
Defined.

Lemma C9_empty_seed_keeps_address_and_error_witness :
  address (state (step untranslated (SeedInput "") validated_sys)) = "5Abc".
Proof.
  destruct (C9_empty_seed_keeps_address_and_error untranslated validated_sys)
    as (_ & Haddress & _).
  rewrite Haddress. reflexivity.
Defined.

(** C10, as the specification words it, fails: the answer to a call made
    before the algorithm was changed carries the old algorithm in [type]. *)
Lemma C10_stale_response_carries_old_type :
  reachable untranslated stale_type_sys ∧
  pending stale_type_sys !! 0 = Some (mkRequest 0 "a" (Some "a") None "" "sr25519") ∧
  ¬ candidate_fields_current untranslated stale_type_sys 0 example_account.
Proof.
  split; [apply reachable_run; constructor|].
  split; [reflexivity|].
  intros (account & Hlast & _ & Htype).
  change (last (calls (step untranslated (Resolve 0 example_account) stale_type_sys)))
    with (last (calls stale_type_sys ++
                [onAccountChange (Some (candidate example_account "" "sr25519"))])) in Hlast.
  rewrite last_snoc in Hlast.
  apply (f_equal (λ c, match c with
                       | Some (onAccountChange (Some a)) => a !! "type"
                       | _ => None
                       end)) in Hlast.
  cbv beta iota in Hlast. unfold candidate in Hlast.
  rewrite lookup_candidate in Hlast by done.
  rewrite lookup_selection_type in Hlast.
  pose proof (eq_trans Hlast Htype) as Habs.
  vm_compute in Habs. discriminate.
Qed.

Lemma C10_selection_overrides_response_witness :
  ∃ account,
    last (calls (step untranslated (Resolve 0 overriding_account) awaiting_sys)) =
      Some (onAccountChange (Some account)) ∧
    account !! "genesis" = Some "" ∧
    account !! "type" = Some "sr25519" ∧
    (truthy_opt (seed (state awaiting_sys)) = true →
     latest awaiting_sys (mkRequest 0 "abc" (Some "abc") None "" "sr25519") →
     account !! "genesis" =
       Some (genesis (state (step untranslated (Resolve 0 overriding_account) awaiting_sys))) ∧
     account !! "type" =
       Some (type (step untranslated (Resolve 0 overriding_account) awaiting_sys))).
Proof.
  apply (C10_selection_overrides_response untranslated awaiting_sys 0
           (mkRequest 0 "abc" (Some "abc") None "" "sr25519") overriding_account).
  - apply reachable_run. constructor.
  - reflexivity.
Defined.

(** ** Further properties of the component *)

Lemma append_nonempty (s p : string) : s ≠ "" → s +:+ p ≠ "".
Proof. destruct s; [done | discriminate]. Qed.

Lemma candidate_complete (validatedAccount : ValidatedAccount) (g : string) (ty : KeypairType) :
  call_ok (onAccountChange (Some (candidate validatedAccount g ty))).
Proof.
  unfold call_ok, candidate. rewrite !lookup_candidate by done.
  rewrite lookup_selection_genesis, lookup_selection_type.
  rewrite lookup_selection_other by done.
  unfold account_object. rewrite lookup_insert_eq. eauto.
Qed.

Section Further.

Variable t : string → string.

(** The effect on a non-empty seed, with [null] read as the empty string. *)
Lemma validation_effect_seed (sys : Sys) (s : string) :
  seed (state sys) = Some s →
  s ≠ "" →
  validation_effect sys =
  await (mkRequest (issued sys) (s +:+ default "" (path (state sys))) (Some s)
                   (path (state sys)) (genesis (state sys)) (type sys))
        (call (validateSeed (s +:+ default "" (path (state sys))) (type sys)) sys).
Proof.
  intros Hs Hne.
  assert (truthy_opt (seed (state sys)) = true) as Hseed.
  { apply truthy_opt_true. eauto. }
  rewrite (validation_effect_validate sys Hseed). simpl.
  by rewrite !or_empty_default, Hs.
Qed.

Lemma validation_effect_calls_ok (sys : Sys) :
  Forall call_ok (calls sys) → Forall call_ok (calls (validation_effect sys)).
Proof.
  intros Hok. destruct (truthy_opt (seed (state sys))) eqn:Hseed.
  - destruct (proj1 (truthy_opt_true _) Hseed) as (s & Hs & Hne).
    rewrite (validation_effect_seed sys s Hs Hne). simpl.
    apply Forall_app. split; [done|].
    apply Forall_singleton. simpl. by apply append_nonempty.
  - rewrite (validation_effect_empty sys Hseed). simpl.
    apply Forall_app. split; [done|]. by apply Forall_singleton.
Qed.

Lemma handle_calls_ok (ev : Event) (sys : Sys) :
  Forall call_ok (calls sys) → Forall call_ok (calls (handle t ev sys)).
Proof.
  intros Hok. destruct ev as [v|v| |v|v| |v|i validatedAccount|i]; simpl; try done.
  - by destruct (advanced (state sys)).
  - destruct (advanced (state sys)); [|done].
    unfold _onTypeChange. destruct (isKeypairType v) eqn:Hv; [|done]. simpl.
    apply Forall_app. split; [done|]. by apply Forall_singleton.
  - destruct (negb _ || _); [done|]. simpl.
    apply Forall_app. split; [done|]. by apply Forall_singleton.
  - destruct (pending sys !! i) as [r|]; [|done].
    change (Forall call_ok (calls sys ++
      [onAccountChange (Some (candidate validatedAccount (req_genesis r) (req_type r)))])).
    apply Forall_app. split; [done|].
    apply Forall_singleton. apply candidate_complete.
  - destruct (pending sys !! i) as [r|]; [|done]. simpl.
    apply Forall_app. split; [done|]. by apply Forall_singleton.
Qed.

Lemma reachable_calls_ok (sys : Sys) : reachable t sys → Forall call_ok (calls sys).
Proof.
  induction 1 as [ty|ev sys _ IH].
  - by apply Forall_singleton.
  - destruct (step_unfold t ev sys) as [[_ ->]|[_ ->]].
    + by apply handle_calls_ok.
    + by apply validation_effect_calls_ok, handle_calls_ok.
Qed.

(** X1.  The crypto type dropdown offers exactly the recognised algorithms,
    each under its own name: an offered option passes [isKeypairType], so
    choosing it is forwarded to [onTypeChange] with the state untouched, and
    every recognised algorithm is on offer. *)
Theorem X1_dropdown_offers_recognised_types (o : Dropdown.Option) (sys : Sys) :
  o ∈ keypairTypeOptions →
  Dropdown.text o = Dropdown.value o ∧
  isKeypairType (Dropdown.value o) = true ∧
  calls (_onTypeChange (Dropdown.value o) sys) =
    calls sys ++ [onTypeChange (Dropdown.value o)] ∧
  state (_onTypeChange (Dropdown.value o) sys) = state sys ∧
  (∀ v, isKeypairType v = true → Dropdown.mkOption v v ∈ keypairTypeOptions).
Proof.
  intros Ho.
  assert (∀ v, isKeypairType v = true → Dropdown.mkOption v v ∈ keypairTypeOptions) as Hall.
  { intros v Hv. unfold keypairTypeOptions. apply list_elem_of_fmap.
    exists v. split; [done|]. by apply includes_elem_of. }
  unfold keypairTypeOptions in Ho.
  apply list_elem_of_fmap in Ho as (name & -> & Hname).
  cbn [Dropdown.text Dropdown.value].
  assert (isKeypairType name = true) as Hrec.
  { unfold isKeypairType. by apply includes_elem_of. }
  split; [done|]. split; [done|].
  unfold _onTypeChange. rewrite Hrec. by repeat split.
Qed.

(** X2.  In every reachable state, every [onTypeChange] call the component
    has made carried one of "ed25519", "sr25519", "ecdsa". *)
Theorem X2_onTypeChange_only_recognised (sys : Sys) (ty : KeypairType) :
  reachable t sys →
  onTypeChange ty ∈ calls sys →
  ty = "ed25519" ∨ ty = "sr25519" ∨ ty = "ecdsa".
Proof.
  intros Hreach Hin. apply isKeypairType_spec.
  pose proof (reachable_calls_ok sys Hreach) as Hok.
  rewrite Forall_forall in Hok. exact (Hok _ Hin).
Qed.

(** X3.  In every reachable state, no [validateSeed] call the component has
    made was given an empty secret. *)
Theorem X3_validateSeed_never_empty (sys : Sys) (suri : string) (ty : KeypairType) :
  reachable t sys →
  validateSeed suri ty ∈ calls sys →
  suri ≠ "".
Proof.
  intros Hreach Hin.
  pose proof (reachable_calls_ok sys Hreach) as Hok.
  rewrite Forall_forall in Hok. exact (Hok _ Hin).
Qed.

(** X4.  In every reachable state, every candidate the component has
    forwarded through [onAccountChange] has an [address], a [genesis] and a
    [type] field. *)
Theorem X4_forwarded_candidate_complete (sys : Sys) (account : object) :
  reachable t sys →
  onAccountChange (Some account) ∈ calls sys →
  is_Some (account !! "address") ∧
  is_Some (account !! "genesis") ∧
  is_Some (account !! "type").
Proof.
  intros Hreach Hin.
  pose proof (reachable_calls_ok sys Hreach) as Hok.
  rewrite Forall_forall in Hok. exact (Hok _ Hin).
Qed.

Lemma handle_error (ev : Event) (sys : Sys) :
  (error (state sys) = "" ∨
   ∃ r, last (completed sys) = Some (r, Rejected) ∧ error (state sys) = failure_message t r) →
  error (state (handle t ev sys)) = "" ∨
  ∃ r, last (completed (handle t ev sys)) = Some (r, Rejected) ∧
       error (state (handle t ev sys)) = failure_message t r.
Proof.
  intros H. destruct ev as [v|v| |v|v| |v|i validatedAccount|i]; simpl; try done.
  - by destruct (advanced (state sys)).
  - destruct (advanced (state sys)); [|done].
    unfold _onTypeChange. destruct (isKeypairType v); [done | by left].
  - by destruct (negb _ || _).
  - destruct (pending sys !! i) as [r|]; [by left | done].
  - destruct (pending sys !! i) as [r|]; [|done].
    right. exists r. simpl. split; [apply last_snoc | done].
Qed.

(** X5.  In every reachable state [error] is either empty or the message of
    the most recently completed round-trip, which then failed: no other
    text is ever shown as the error. *)
Theorem X5_error_comes_from_last_failure (sys : Sys) :
  reachable t sys →
  error (state sys) = "" ∨
  ∃ r, last (completed sys) = Some (r, Rejected) ∧ error (state sys) = failure_message t r.
Proof.
  induction 1 as [ty|ev sys _ IH]; [by left|].
  pose proof (handle_error ev sys IH) as H.
  destruct (step_unfold t ev sys) as [[_ ->]|[_ ->]]; [done|].
  destruct (validation_effect_state (handle t ev sys)) as (-> & _ & ->). done.
Qed.

(** X6.  In every reachable state the "Next" button is enabled only if the
    most recently completed round-trip succeeded, and [address] is then the
    non-empty address it returned; in particular the button is disabled
    until a round-trip has completed. *)
Theorem X6_next_enabled_only_after_success (sys : Sys) :
  reachable t sys →
  nextStep_isDisabled (render sys) = false →
  ∃ r validatedAccount,
    last (completed sys) = Some (r, Fulfilled validatedAccount) ∧
    address (state sys) = account_address validatedAccount ∧
    account_address validatedAccount ≠ "".
Proof.
  intros [_ _ Haddr]%reachable_invariant Henabled. simpl in Henabled.
  apply orb_false_iff in Henabled as [Ha _].
  apply negb_false_iff, truthy_true in Ha.
  rewrite Haddr in Ha. unfold recorded_address in Haddr, Ha.
  destruct (last (completed sys)) as [[r [validatedAccount|]]|]; [|done|done].
  by exists r, validatedAccount.
Qed.

(** X7.  When a pending validation call fails the "Next" button is
    disabled; when it succeeds the button is enabled exactly if the
    returned address is non-empty. *)
Theorem X7_settling_sets_the_button (sys : Sys) (i : nat) (r : Request)
    (validatedAccount : ValidatedAccount) :
  pending sys !! i = Some r →
  nextStep_isDisabled (render (step t (Reject i) sys)) = true ∧
  (nextStep_isDisabled (render (step t (Resolve i validatedAccount) sys)) = false ↔
   account_address validatedAccount ≠ "").
Proof.
  intros Hi. rewrite (step_reject t sys i r Hi).
  rewrite (step_resolve t sys i r validatedAccount Hi). simpl.
  split; [done|].
  rewrite orb_false_iff, negb_false_iff, truthy_true. tauto.
Qed.

(** X8.  The two warnings are never shown together.  Without an error
    nothing is flagged and no warning is shown; with an error the seed input
    is flagged and exactly one warning is shown: the word-count hint when
    the seed is empty, the error text otherwise. *)
Theorem X8_warnings_exclusive (sys : Sys) :
  let view := render sys in
  (seedError_shown view = true → warning view = None) ∧
  (error (state sys) = "" →
   seedInput_isError view = false ∧ seedError_shown view = false ∧
   warning view = None ∧ derivationPath_isError view = false) ∧
  (error (state sys) ≠ "" →
   seedInput_isError view = true ∧
   (truthy_opt (seed (state sys)) = false →
    seedError_shown view = true ∧ warning view = None) ∧
   (truthy_opt (seed (state sys)) = true →
    seedError_shown view = false ∧ warning view = Some (error (state sys)))).
Proof.
  simpl. split; [|split].
  - intros [_ Hs%negb_true_iff]%andb_true_iff. rewrite Hs.
    by rewrite andb_false_r.
  - intros He. apply truthy_false in He. rewrite He. simpl.
    by rewrite andb_false_r.
  - intros He. apply truthy_true in He. rewrite He. simpl.
    split; [done|]. split; intros ->; done.
Qed.

(** X9.  Entering the value a field already holds does nothing: no state
    cell changes, no callback is called and no validation call is made.
    This holds for the seed, the network, the derivation path and the
    [type] prop. *)
Theorem X9_same_value_is_ignored (sys : Sys) :
  (∀ v, seed (state sys) = Some v → step t (SeedInput v) sys = sys) ∧
  (∀ g, genesis (state sys) = g → step t (GenesisInput g) sys = sys) ∧
  (∀ p, path (state sys) = Some p → step t (PathInput p) sys = sys) ∧
  (∀ ty, type sys = ty → step t (TypeProp ty) sys = sys).
Proof.
  destruct sys as [[a s p ad e g] ty pe ca n co]. simpl.
  split; [|split; [|split]].
  - intros v ->. unfold step. simpl.
    destruct (decide _) as [_|Hne]; [done | by destruct Hne].
  - intros g' <-. unfold step. simpl.
    destruct (decide _) as [_|Hne]; [done | by destruct Hne].
  - intros p' ->. unfold step. simpl. destruct ad; simpl.
    + destruct (decide _) as [_|Hne]; [done | by destruct Hne].
    + destruct (decide _) as [_|Hne]; [done | by destruct Hne].
  - intros ty' <-. unfold step. simpl.
    destruct (decide _) as [_|Hne]; [done | by destruct Hne].
Qed.

(** X10.  With a non-empty seed, selecting another network, or receiving
    another [type] from the parent, makes exactly one new validation call
    for the unchanged secret, whose callbacks hold the new selection; the
    address and error shown stay as they are until it settles. *)
Theorem X10_selection_change_revalidates (sys : Sys) (s : string) :
  seed (state sys) = Some s →
  s ≠ "" →
  let suri := s +:+ default "" (path (state sys)) in
  (∀ g, g ≠ genesis (state sys) →
     let sys' := step t (GenesisInput g) sys in
     calls sys' = calls sys ++ [validateSeed suri (type sys)] ∧
     pending sys' = pending sys ++
       [mkRequest (issued sys) suri (Some s) (path (state sys)) g (type sys)] ∧
     address (state sys') = address (state sys) ∧
     error (state sys') = error (state sys)) ∧
  (∀ ty, ty ≠ type sys →
     let sys' := step t (TypeProp ty) sys in
     calls sys' = calls sys ++ [validateSeed suri ty] ∧
     pending sys' = pending sys ++
       [mkRequest (issued sys) suri (Some s) (path (state sys)) (genesis (state sys)) ty] ∧
     address (state sys') = address (state sys) ∧
     error (state sys') = error (state sys)).
Proof.
  destruct sys as [[a s0 p ad e g0] ty0 pe ca n co]. simpl.
  intros -> Hne. split.
  - intros g Hg. unfold step. simpl.
    destruct (decide _) as [Heq|_]; [injection Heq as Heq; by destruct Hg|].
    erewrite (validation_effect_seed _ s); [done | reflexivity | done].
  - intros ty Hty. unfold step. simpl.
    destruct (decide _) as [Heq|_]; [injection Heq as Heq; by destruct Hty|].
    erewrite (validation_effect_seed _ s); [done | reflexivity | done].
Qed.

(** X11.  Clicking the advanced toggle twice brings the component back to
    the state it was in, with nothing called in between. *)
Theorem X11_toggle_twice (sys : Sys) :
  step t AdvancedClick (step t AdvancedClick sys) = sys.
Proof.
  destruct sys as [[a s p ad e g] ty pe ca n co].
  unfold step. simpl.
  destruct (decide _) as [_|Hne]; [|by destruct Hne]. simpl.
  destruct (decide _) as [_|Hne]; [|by destruct Hne].
  by destruct ad.
Qed.

(** X12.  A derivation path entered in the advanced section keeps taking
    effect after the section is closed: the path input is no longer
    rendered, and a newly entered seed is validated with that path
    appended. *)
Theorem X12_hidden_path_still_applies (sys : Sys) (s p : string) :
  advanced (state sys) = true →
  path (state sys) = Some p →
  seed (state sys) ≠ Some s →
  s ≠ "" →
  let closed := step t AdvancedClick sys in
  derivationPath_shown (render closed) = false ∧
  calls (step t (SeedInput s) closed) = calls sys ++ [validateSeed (s +:+ p) (type sys)].
Proof.
  destruct sys as [[a s0 p0 ad e g] ty pe ca n co]. simpl.
  intros -> -> Hseed Hne. unfold step. simpl.
  destruct (decide _) as [_|Hn]; [|by destruct Hn]. simpl.
  split; [done|].
  destruct (decide _) as [Heq|_]; [injection Heq as Heq; by destruct Hseed|].
  erewrite (validation_effect_seed _ s); [done | reflexivity | done].
Qed.

(** X13.  A settling promise never starts a validation: whether it
    resolves or rejects, no dependency of the effect changes, no
    [validateSeed] call is made, no promise is added, and the only calls
    made are to [onAccountChange]. *)
Theorem X13_settling_starts_no_validation (sys : Sys) (ev : Event) (i : nat)
    (validatedAccount : ValidatedAccount) :
  ev = Resolve i validatedAccount ∨ ev = Reject i →
  deps (step t ev sys) = deps sys ∧
  issued (step t ev sys) = issued sys ∧
  (length (pending (step t ev sys)) ≤ length (pending sys))%nat ∧
  ∃ extra, calls (step t ev sys) = calls sys ++ extra ∧ Forall is_onAccountChange extra.
Proof.
  intros Hev. destruct (pending sys !! i) as [r|] eqn:Hi.
  - assert (length (delete i (pending sys)) ≤ length (pending sys))%nat as Hlen.
    { rewrite length_delete by eauto. lia. }
    destruct Hev as [-> | ->].
    + rewrite (step_resolve t sys i r validatedAccount Hi).
      split; [done|]. split; [done|]. split; [done|].
      eexists [_]. split; [reflexivity|]. apply Forall_singleton. by eexists.
    + rewrite (step_reject t sys i r Hi).
      split; [done|]. split; [done|]. split; [done|].
      eexists [_]. split; [reflexivity|]. apply Forall_singleton. by eexists.
  - assert (step t ev sys = sys) as ->.
    { destruct Hev as [-> | ->]; unfold step, handle; rewrite Hi;
        (destruct (decide _) as [_|Hne]; [done | by destruct Hne]). }
    split; [done|]. split; [done|]. split; [done|].
    exists []. split; [by rewrite app_nil_r | by apply Forall_nil].
Qed.

End Further.

(** ** The further properties on concrete runs *)

Lemma X1_dropdown_offers_recognised_types_witness :
  Dropdown.text (Dropdown.mkOption "ecdsa" "ecdsa") =
    Dropdown.value (Dropdown.mkOption "ecdsa" "ecdsa") ∧
  isKeypairType (Dropdown.value (Dropdown.mkOption "ecdsa" "ecdsa")) = true ∧
  calls (_onTypeChange (Dropdown.value (Dropdown.mkOption "ecdsa" "ecdsa")) awaiting_sys) =
    calls awaiting_sys ++ [onTypeChange (Dropdown.value (Dropdown.mkOption "ecdsa" "ecdsa"))] ∧
  state (_onTypeChange (Dropdown.value (Dropdown.mkOption "ecdsa" "ecdsa")) awaiting_sys) =
    state awaiting_sys ∧
  (∀ v, isKeypairType v = true → Dropdown.mkOption v v ∈ keypairTypeOptions).
Proof.
  apply (X1_dropdown_offers_recognised_types (Dropdown.mkOption "ecdsa" "ecdsa") awaiting_sys).
  do 2 apply list_elem_of_further. apply list_elem_of_here.
Defined.

Lemma X2_onTypeChange_only_recognised_witness :
  "ecdsa" = "ed25519" ∨ "ecdsa" = "sr25519" ∨ "ecdsa" = "ecdsa".
Proof.
  apply (X2_onTypeChange_only_recognised untranslated typed_sys "ecdsa").
  - apply reachable_run. constructor.
  - apply list_elem_of_further. apply list_elem_of_here.
Defined.

Lemma X3_validateSeed_never_empty_witness : "abc" ≠ "".
Proof.
  apply (X3_validateSeed_never_empty untranslated awaiting_sys "abc" "sr25519").
  - apply reachable_run. constructor.
  - apply list_elem_of_further. apply list_elem_of_here.
Defined.

Lemma X4_forwarded_candidate_complete_witness :
  is_Some (candidate example_account "" "sr25519" !! "address") ∧
  is_Some (candidate example_account "" "sr25519" !! "genesis") ∧
  is_Some (candidate example_account "" "sr25519" !! "type").
Proof.
  apply (X4_forwarded_candidate_complete untranslated validated_sys
           (candidate example_account "" "sr25519")).
  - apply reachable_run. constructor.
  - do 2 apply list_elem_of_further. apply list_elem_of_here.
Defined.

Lemma X5_error_comes_from_last_failure_witness :
  error (state rejected_sys) = "" ∨
  ∃ r, last (completed rejected_sys) = Some (r, Rejected) ∧
       error (state rejected_sys) = failure_message untranslated r.
Proof.
  apply (X5_error_comes_from_last_failure untranslated rejected_sys).
  apply reachable_run. constructor.
Defined.

Lemma X6_next_enabled_only_after_success_witness :
  ∃ r validatedAccount,
    last (completed validated_sys) = Some (r, Fulfilled validatedAccount) ∧
    address (state validated_sys) = account_address validatedAccount ∧
    account_address validatedAccount ≠ "".
Proof.
  apply (X6_next_enabled_only_after_success untranslated validated_sys).
  - apply reachable_run. constructor.
  - reflexivity.
Defined.

Lemma X7_settling_sets_the_button_witness :
  nextStep_isDisabled (render (step untranslated (Reject 0) awaiting_sys)) = true ∧
  (nextStep_isDisabled (render (step untranslated (Resolve 0 example_account) awaiting_sys))
     = false ↔
   account_address example_account ≠ "").
Proof.
  apply (X7_settling_sets_the_button untranslated awaiting_sys 0
           (mkRequest 0 "abc" (Some "abc") None "" "sr25519") example_account).
  reflexivity.
Defined.

Lemma X8_warnings_exclusive_witness :
  seedInput_isError (render rejected_sys) = true.
Proof.
  destruct (X8_warnings_exclusive rejected_sys) as (_ & _ & Herror).
  apply Herror. discriminate.
Defined.

Lemma X9_same_value_is_ignored_witness :
  step untranslated (SeedInput "abc") awaiting_sys = awaiting_sys.
Proof.
  destruct (X9_same_value_is_ignored untranslated awaiting_sys) as (Hseed & _).
  apply Hseed. reflexivity.
Defined.

Lemma X10_selection_change_revalidates_witness :
  let suri := "abc" +:+ default "" (path (state awaiting_sys)) in
  (∀ g, g ≠ genesis (state awaiting_sys) →
     let sys' := step untranslated (GenesisInput g) awaiting_sys in
     calls sys' = calls awaiting_sys ++ [validateSeed suri (type awaiting_sys)] ∧
     pending sys' = pending awaiting_sys ++
       [mkRequest (issued awaiting_sys) suri (Some "abc") (path (state awaiting_sys)) g
                  (type awaiting_sys)] ∧
     address (state sys') = address (state awaiting_sys) ∧
     error (state sys') = error (state awaiting_sys)) ∧
  (∀ ty, ty ≠ type awaiting_sys →
     let sys' := step untranslated (TypeProp ty) awaiting_sys in
     calls sys' = calls awaiting_sys ++ [validateSeed suri ty] ∧
     pending sys' = pending awaiting_sys ++
       [mkRequest (issued awaiting_sys) suri (Some "abc") (path (state awaiting_sys))
                  (genesis (state awaiting_sys)) ty] ∧
     address (state sys') = address (state awaiting_sys) ∧
     error (state sys') = error (state awaiting_sys)).
Proof.
  apply (X10_selection_change_revalidates untranslated awaiting_sys "abc").
  - reflexivity.
  - discriminate.
Defined.

Lemma X12_hidden_path_still_applies_witness :
  let closed := step untranslated AdvancedClick advanced_path_sys in
  derivationPath_shown (render closed) = false ∧
  calls (step untranslated (SeedInput "xyz") closed) =
    calls advanced_path_sys ++ [validateSeed ("xyz" +:+ "//0") (type advanced_path_sys)].
Proof.
  apply (X12_hidden_path_still_applies untranslated advanced_path_sys "xyz" "//0").
  - reflexivity.
  - reflexivity.
  - discriminate.
  - discriminate.
Defined.

Lemma X13_settling_starts_no_validation_witness :
  deps (step untranslated (Reject 0) awaiting_sys) = deps awaiting_sys ∧
  issued (step untranslated (Reject 0) awaiting_sys) = issued awaiting_sys ∧
  (length (pending (step untranslated (Reject 0) awaiting_sys)) ≤
   length (pending awaiting_sys))%nat ∧
  ∃ extra, calls (step untranslated (Reject 0) awaiting_sys) = calls awaiting_sys ++ extra ∧
           Forall is_onAccountChange extra.
Proof.
  apply (X13_settling_starts_no_validation untranslated awaiting_sys (Reject 0) 0
           example_account).
  right. reflexivity.
Defined.
